(** * LatticeFlow: the join-semilattice interface of [lattices/lattice.h]

    The header declares the CRTP interface [Lattice<L, T>] with the two pure
    virtual methods [get] and [join], and derives the three free comparison
    operators [operator==], [operator!=] and [operator<=] from them.

    The development has two layers.
    - A value layer: the state of an object of the implementing class [L] is
      a value of type [L]; [get] is a function of the state, [join] maps the
      state of [*this] and the state of [other] to the new state of [*this].
    - An object layer: objects live in a store indexed by addresses, methods
      are called through addresses, a by-value parameter is a fresh object of
      the store.  The operators are embedded at this layer, statement for
      statement, and then related to the value layer. *)

From stdpp Require Import base option gmap.
From Stdlib Require Import ZArith Bool Lia.

(** ** The domain type [T]

    The operators apply [==] and [!=] to the results of [get], so the header
    compiles for a domain type carrying both operators.  They are two
    independent functions of [T]: nothing in the header relates them. *)
Class Comparable (T : Type) : Type := {
  t_eq : T → T → bool;  (* T's operator== *)
  t_ne : T → T → bool;  (* T's operator!= *)
}.

(** [==] of [T] is an equivalence relation (the C++ EqualityComparable
    requirement). *)
Class EqualityComparable (T : Type) `{Comparable T} : Prop := {
  t_eq_refl : ∀ a : T, t_eq a a = true;
  t_eq_sym : ∀ a b : T, t_eq a b = true → t_eq b a = true;
  t_eq_trans : ∀ a b c : T, t_eq a b = true → t_eq b c = true → t_eq a c = true;
}.

(** [!=] of [T] is the negation of its [==]. *)
Definition ne_complements_eq (T : Type) `{Comparable T} : Prop :=
  ∀ a b : T, t_ne a b = negb (t_eq a b).

(** ** The interface [Lattice<L, T>]

    [virtual const T& get() const = 0]: a const method, a function of the
    state of [*this].
    [virtual void join(const L& other) = 0]: reads [other] through a const
    reference and updates [*this]; [join self other] is the state of [*this]
    after the call. *)
Class Lattice (L T : Type) : Type := {
  get : L → T;
  join : L → L → L;
}.
Global Hint Mode Lattice ! - : typeclass_instances.

Section Interface.
Context {L T : Type} {CmpT : Comparable T} {LatL : Lattice L T}.

(** *** Value layer: what the operators compute from the operands' states *)

(** [l.get() == r.get()] *)
Definition equal (l r : L) : bool := t_eq (get l) (get r).

(** [l.get() != r.get()] *)
Definition not_equal (l r : L) : bool := t_ne (get l) (get r).

(** [l.join(r); l.get() == r.get()], on the states. *)
Definition less_or_equal (l r : L) : bool :=
  let l' := join l r in
  t_eq (get l') (get r).

(** The semilattice laws of the header comment, with [==] the operator the
    header defines on lattices (equality of the [get] values). *)
Definition idempotent : Prop :=
  ∀ x : L, equal (join x x) x = true.
Definition commutative : Prop :=
  ∀ x y : L, equal (join x y) (join y x) = true.
Definition associative : Prop :=
  ∀ x y z : L, equal (join x (join y z)) (join (join x y) z) = true.

(** [join] respects observational equality of the joined-in operand: what
    [get] shows after a join depends on [other] only through what [get]
    shows of it. *)
Definition join_respects_equal : Prop :=
  ∀ x a b : L, equal a b = true → equal (join x a) (join x b) = true.
End Interface.

Arguments idempotent L {T CmpT LatL}.
Arguments commutative L {T CmpT LatL}.
Arguments associative L {T CmpT LatL}.
Arguments join_respects_equal L {T CmpT LatL}.

Section Store.
Context {L : Type}.

(** ** Object layer: a store of [L] objects

    A computation takes the store and returns a result and the new store,
    or [None] when it goes through an address that holds no object. *)
Definition M (A : Type) : Type :=
  gmap positive L → option (A * gmap positive L).

Definition ret {A : Type} (a : A) : M A := λ h, Some (a, h).

Definition bind {A B : Type} (c : M A) (k : A → M B) : M B :=
  λ h, match c h with
       | Some (a, h') => k a h'
       | None => None
       end.

(** Read the state of the object at [p]. *)
Definition deref (p : positive) : M L :=
  λ h, match h !! p with
       | Some x => Some (x, h)
       | None => None
       end.

(** Overwrite the state of the object at [p]. *)
Definition assign (p : positive) (v : L) : M unit :=
  λ h, match h !! p with
       | Some _ => Some (tt, <[p := v]> h)
       | None => None
       end.

(** Copy-construct a new object with state [v] at an unused address. *)
Definition construct (v : L) : M positive :=
  λ h, let p := fresh (dom h) in Some (p, <[p := v]> h).

(** End the lifetime of the object at [p]. *)
Definition destroy (p : positive) : M unit :=
  λ h, Some (tt, delete p h).
End Store.

Arguments M : clear implicits.

Notation "'let*' x ':=' c 'in' k" := (bind c (λ x, k))
  (at level 10, x pattern, c at level 100, k at level 200, only parsing).
Notation "c ';;;' k" := (bind c (λ _, k))
  (at level 100, k at level 200, right associativity, only parsing).

Section Operators.
Context {L T : Type} `{Comparable T} `{Lattice L T}.

(** [this->get()] *)
Definition call_get (this : positive) : M L T :=
  let* x := deref this in
  ret (get x).

(** [this->join(other)] *)
Definition call_join (this other : positive) : M L unit :=
  let* x := deref this in
  let* y := deref other in
  assign this (join x y).

(** [operator==(const T& l, const T& r) { return l.get() == r.get(); }] *)
Definition operator_eq (l r : positive) : M L bool :=
  let* a := call_get l in
  let* b := call_get r in
  ret (t_eq a b).

(** [operator!=(const T& l, const T& r) { return l.get() != r.get(); }] *)
Definition operator_ne (l r : positive) : M L bool :=
  let* a := call_get l in
  let* b := call_get r in
  ret (t_ne a b).

(** [operator<=(T l, const T& r) { l.join(r); return l.get() == r.get(); }]

    The left parameter is passed by value: [arg] is the address of the
    caller's left operand, the parameter [l] is a new object copied from it
    and destroyed when the call is over. *)
Definition operator_le (arg r : positive) : M L bool :=
  let* x := deref arg in
  let* l := construct x in
  call_join l r ;;;
  let* a := call_get l in
  let* b := call_get r in
  destroy l ;;;
  ret (t_eq a b).
End Operators.

(** ** Implementing types used to exercise the interface

    The header contains no implementing class; the classes below are small
    ones to run the operators on. *)

(** Integers compared with [==] and [!=] of [int]. *)
#[export] Instance Z_comparable : Comparable Z := {|
  t_eq := Z.eqb;
  t_ne := λ a b, negb (Z.eqb a b);
|}.

(** Booleans compared with [==] and [!=] of [bool]. *)
#[export] Instance bool_comparable : Comparable bool := {|
  t_eq := Bool.eqb;
  t_ne := xorb;
|}.

(** The integer-max lattice: [join] keeps the larger of the two integers. *)
Record MaxInt : Type := { max_value : Z }.

#[export] Instance MaxInt_lattice : Lattice MaxInt Z := {|
  get := max_value;
  join := λ self other,
    {| max_value := Z.max (max_value self) (max_value other) |};
|}.

(** The boolean-or lattice. *)
Record BoolOr : Type := { or_value : bool }.

#[export] Instance BoolOr_lattice : Lattice BoolOr bool := {|
  get := or_value;
  join := λ self other,
    {| or_value := or_value self || or_value other |};
|}.

(** A last-writer-wins register: the state is a timestamped integer, [join]
    keeps the entry with the later timestamp (the larger integer on a tie) and
    [get] shows the integer without its timestamp.  On the states [join] is the
    least upper bound of the lexicographic order. *)
Record LwwRegister : Type := { lww_time : Z; lww_value : Z }.

Definition lww_join (self other : LwwRegister) : LwwRegister :=
  if (lww_time self <? lww_time other)%Z then other
  else if (lww_time other <? lww_time self)%Z then self
  else {| lww_time := lww_time self;
          lww_value := Z.max (lww_value self) (lww_value other) |}.

#[export] Instance LwwRegister_lattice : Lattice LwwRegister Z := {|
  get := lww_value;
  join := lww_join;
|}.

(** A three-state class whose [join] moves on to a different state even when
    an object is joined with an equal one: the states are the residues modulo
    three, [join] adds the residues and one, [get] tells whether the state is
    the residue two. *)
Inductive Cycle : Type := C0 | C1 | C2.

Definition cycle_next (c : Cycle) : Cycle :=
  match c with C0 => C1 | C1 => C2 | C2 => C0 end.

Definition cycle_add (a b : Cycle) : Cycle :=
  match a with
  | C0 => b
  | C1 => cycle_next b
  | C2 => cycle_next (cycle_next b)
  end.

#[export] Instance Cycle_lattice : Lattice Cycle bool := {|
  get := λ c, match c with C2 => true | _ => false end;
  join := λ self other, cycle_next (cycle_add self other);
|}.

(** A domain type whose two operators disagree: [==] compares the payload
    only, [!=] reports a difference in either field. *)
Record Versioned : Type := { payload : Z; version : Z }.

#[export] Instance Versioned_comparable : Comparable Versioned := {|
  t_eq := λ a b, (payload a =? payload b)%Z;
  t_ne := λ a b,
    negb (payload a =? payload b)%Z || negb (version a =? version b)%Z;
|}.

(** A lattice over [Versioned]: [join] keeps the entry with the larger payload
    (the larger version on a tie). *)
Record VersionedMax : Type := { current : Versioned }.

Definition versioned_join (self other : VersionedMax) : VersionedMax :=
  if (payload (current self) <? payload (current other))%Z then other
  else if (payload (current other) <? payload (current self))%Z then self
  else if (version (current self) <? version (current other))%Z then other
  else self.

#[export] Instance VersionedMax_lattice : Lattice VersionedMax Versioned := {|
  get := current;
  join := versioned_join;
|}.

(** Stores holding two and three objects, at the addresses 1, 2 and 3. *)
Definition store2 {L : Type} (a b : L) : gmap positive L :=
  <[2%positive := b]> (<[1%positive := a]> ∅).

Definition store3 {L : Type} (a b c : L) : gmap positive L :=
  <[3%positive := c]> (store2 a b).

(** The stores of the examples: integer-max objects, three [Cycle] objects
    in the state [C0], three registers, two [Versioned] objects that differ in
    the version only. *)
Definition ints_3_7 : gmap positive MaxInt :=
  store2 {| max_value := 3 |} {| max_value := 7 |}.

Definition ints_5_5 : gmap positive MaxInt :=
  store2 {| max_value := 5 |} {| max_value := 5 |}.

Definition ints_3_7_3 : gmap positive MaxInt :=
  store3 {| max_value := 3 |} {| max_value := 7 |} {| max_value := 3 |}.

Definition ints_3_5_7 : gmap positive MaxInt :=
  store3 {| max_value := 3 |} {| max_value := 5 |} {| max_value := 7 |}.

Definition cycles : gmap positive Cycle := store3 C0 C0 C0.

Definition registers : gmap positive LwwRegister :=
  store3 {| lww_time := 2; lww_value := 0 |}
         {| lww_time := 1; lww_value := 0 |}
         {| lww_time := 1; lww_value := 1 |}.

Definition versions : gmap positive VersionedMax :=
  store2 {| current := {| payload := 1; version := 0 |} |}
         {| current := {| payload := 1; version := 5 |} |}.

(** A counter whose [join] adds the other counter to this one. *)
Record SumInt : Type := { sum_value : Z }.

#[export] Instance SumInt_lattice : Lattice SumInt Z := {|
  get := sum_value;
  join := λ self other,
    {| sum_value := sum_value self + sum_value other |};
|}.

(** Integers compared up to a tolerance of one: [==] holds of two integers
    that differ by one at most.  It is reflexive and symmetric, and not
    transitive. *)
Record Approx : Type := { approx : Z }.

#[export] Instance Approx_comparable : Comparable Approx := {|
  t_eq := λ a b, (Z.abs (approx a - approx b) <=? 1)%Z;
  t_ne := λ a b, negb (Z.abs (approx a - approx b) <=? 1)%Z;
|}.

(** A three-state class over [Approx]: [join] keeps a state joined with
    itself and goes to [Mid] otherwise; [get] shows 0, 1 and 2. *)
Inductive Band : Type := Low | Mid | High.

Definition band_join (self other : Band) : Band :=
  match self, other with
  | Low, Low => Low
  | High, High => High
  | _, _ => Mid
  end.

#[export] Instance Band_lattice : Lattice Band Approx := {|
  get := λ b, {| approx := match b with Low => 0 | Mid => 1 | High => 2 end |};
  join := band_join;
|}.

(** The integer-max lattice over [Approx]. *)
Record ApproxMax : Type := { approx_max : Z }.

#[export] Instance ApproxMax_lattice : Lattice ApproxMax Approx := {|
  get := λ s, {| approx := approx_max s |};
  join := λ self other,
    {| approx_max := Z.max (approx_max self) (approx_max other) |};
|}.

(** A four-state class over [Approx], given by its [join] table; [get] shows
    0, 1, 2 and 2. *)
Inductive Quad : Type := Q0 | Q1 | Q2 | Q3.

Definition quad_join (self other : Quad) : Quad :=
  match self, other with
  | Q0, Q0 => Q0 | Q0, Q2 => Q2 | Q2, Q0 => Q2
  | Q2, Q3 => Q0 | Q3, Q2 => Q0
  | _, _ => Q1
  end.

#[export] Instance Quad_lattice : Lattice Quad Approx := {|
  get := λ q,
    {| approx := match q with Q0 => 0 | Q1 => 1 | Q2 => 2 | Q3 => 2 end |};
  join := quad_join;
|}.

(** A store holding four objects, and the stores of further examples. *)
Definition store4 {L : Type} (a b c d : L) : gmap positive L :=
  <[4%positive := d]> (store3 a b c).

Definition ints_3_5_7_3 : gmap positive MaxInt :=
  store4 {| max_value := 3 |} {| max_value := 5 |} {| max_value := 7 |}
         {| max_value := 3 |}.


Definition bands : gmap positive Band := store2 Low High.

Definition approx_ints : gmap positive ApproxMax :=
  store3 {| approx_max := 2 |} {| approx_max := 1 |} {| approx_max := 0 |}.

Definition quads : gmap positive Quad := store3 Q2 Q3 Q2.

(** * Properties *)

(** ** Running the methods and the operators on a store *)
Section Run.
Context {L T : Type} `{Comparable T} `{Lattice L T}.
Implicit Types (h : gmap positive L) (p q l r : positive) (x y : L).

Lemma call_get_run h p x :
  h !! p = Some x → call_get p h = Some (get x, h).
Proof. intros Hp. unfold call_get, bind, deref, ret. by rewrite Hp. Qed.

Lemma call_join_run h p q x y :
  h !! p = Some x → h !! q = Some y →
  call_join p q h = Some (tt, <[p := join x y]> h).
Proof.
  intros Hp Hq. unfold call_join, bind, deref, assign.
  by rewrite Hp, Hq, Hp.
Qed.

Lemma operator_eq_run h l r x y :
  h !! l = Some x → h !! r = Some y →
  operator_eq l r h = Some (equal x y, h).
Proof.
  intros Hl Hr. unfold operator_eq, bind.
  by rewrite (call_get_run h l x Hl), (call_get_run h r y Hr).
Qed.

Lemma operator_ne_run h l r x y :
  h !! l = Some x → h !! r = Some y →
  operator_ne l r h = Some (not_equal x y, h).
Proof.
  intros Hl Hr. unfold operator_ne, bind.
  by rewrite (call_get_run h l x Hl), (call_get_run h r y Hr).
Qed.

(** The parameter object of [operator<=] is allocated away from every
    object of the caller, so the call returns the value-layer result and
    gives the caller's store back as it was. *)
Lemma operator_le_run h l r x y :
  h !! l = Some x → h !! r = Some y →
  operator_le l r h = Some (less_or_equal x y, h).
Proof.
  intros Hl Hr. unfold operator_le, bind at 1 2. unfold deref at 1, construct.
  rewrite Hl. cbn beta iota zeta.
  set (p := fresh (dom h)).
  assert (Hp : h !! p = None) by (apply not_elem_of_dom, is_fresh).
  assert (Hpr : p ≠ r) by congruence.
  set (h1 := <[p := x]> h).
  assert (H1p : h1 !! p = Some x) by apply lookup_insert_eq.
  assert (H1r : h1 !! r = Some y) by (unfold h1; by rewrite lookup_insert_ne).
  unfold bind at 1. rewrite (call_join_run h1 p r x y H1p H1r).
  set (h2 := <[p := join x y]> h1).
  assert (H2p : h2 !! p = Some (join x y)) by apply lookup_insert_eq.
  assert (H2r : h2 !! r = Some y) by (unfold h2; by rewrite lookup_insert_ne).
  unfold bind.
  rewrite (call_get_run h2 p _ H2p), (call_get_run h2 r y H2r).
  unfold destroy, ret, less_or_equal. do 2 f_equal.
  unfold h2, h1. rewrite insert_insert_eq. by apply delete_insert_id.
Qed.
End Run.

(** ** The order computed from the states *)
Section Order.
Context {L T : Type} `{EqualityComparable T} `{Lattice L T}.
Implicit Types x y z a b : L.

Lemma equal_sym a b : equal a b = true → equal b a = true.
Proof. apply t_eq_sym. Qed.

Lemma equal_trans a b c :
  equal a b = true → equal b c = true → equal a c = true.
Proof. apply t_eq_trans. Qed.

Lemma less_or_equal_antisym x y :
  commutative L →
  less_or_equal x y = true → less_or_equal y x = true → equal x y = true.
Proof.
  intros Hcomm Hxy Hyx. unfold less_or_equal in *. fold (equal (join x y) y) in Hxy.
  fold (equal (join y x) x) in Hyx.
  apply equal_trans with (join y x); [by apply equal_sym|].
  apply equal_trans with (join x y); [apply Hcomm | done].
Qed.

(** With commutativity, [join] respects observational equality of the
    object joined into as well. *)
Lemma join_respects_equal_self a b z :
  commutative L → join_respects_equal L →
  equal a b = true → equal (join a z) (join b z) = true.
Proof.
  intros Hcomm Hcong Hab.
  apply equal_trans with (join z a); [apply Hcomm|].
  apply equal_trans with (join z b); [by apply Hcong | apply Hcomm].
Qed.

Lemma less_or_equal_join_l x y :
  associative L → commutative L → idempotent L → join_respects_equal L →
  less_or_equal x (join x y) = true.
Proof.
  intros Hassoc Hcomm Hidem Hcong. unfold less_or_equal. cbn zeta.
  fold (equal (join x (join x y)) (join x y)).
  apply equal_trans with (join (join x x) y); [apply Hassoc|].
  apply join_respects_equal_self; auto.
Qed.

Lemma less_or_equal_join_r x y :
  associative L → commutative L → idempotent L → join_respects_equal L →
  less_or_equal y (join x y) = true.
Proof.
  intros Hassoc Hcomm Hidem Hcong. unfold less_or_equal. cbn zeta.
  fold (equal (join y (join x y)) (join x y)).
  apply equal_trans with (join (join x y) y); [apply Hcomm|].
  apply equal_trans with (join x (join y y)); [apply equal_sym, Hassoc|].
  apply Hcong, Hidem.
Qed.

Lemma less_or_equal_trans x y z :
  associative L → commutative L → join_respects_equal L →
  less_or_equal x y = true → less_or_equal y z = true →
  less_or_equal x z = true.
Proof.
  intros Hassoc Hcomm Hcong Hxy Hyz. unfold less_or_equal in *. cbn zeta in *.
  fold (equal (join x y) y) in Hxy. fold (equal (join y z) z) in Hyz.
  fold (equal (join x z) z).
  apply equal_trans with (join x (join y z)).
  { apply Hcong. by apply equal_sym. }
  apply equal_trans with (join (join x y) z); [apply Hassoc|].
  apply equal_trans with (join y z); [|done].
  by apply join_respects_equal_self.
Qed.

(** When idempotence holds on the states themselves, the first half of
    monotonicity needs no compatibility of [join] with [get]. *)
Lemma less_or_equal_join_l_state_idempotent x y :
  associative L → (∀ a, join a a = a) →
  less_or_equal x (join x y) = true.
Proof.
  intros Hassoc Hidem. unfold less_or_equal. cbn zeta.
  specialize (Hassoc x x y). by rewrite Hidem in Hassoc.
Qed.
End Order.

(** ** The sample types and the laws *)

#[export] Instance Z_equality_comparable : EqualityComparable Z.
Proof.
  split; simpl.
  - intros a. apply Z.eqb_refl.
  - intros a b. rewrite !Z.eqb_eq. congruence.
  - intros a b c. rewrite !Z.eqb_eq. congruence.
Qed.

#[export] Instance bool_equality_comparable : EqualityComparable bool.
Proof. split; [intros [] | intros [] [] | intros [] [] []]; done. Qed.

Lemma Z_ne_complements_eq : ne_complements_eq Z.
Proof. intros a b. reflexivity. Qed.

Lemma MaxInt_idempotent : idempotent MaxInt.
Proof. intros x. unfold equal. simpl. apply Z.eqb_eq. lia. Qed.

Lemma MaxInt_commutative : commutative MaxInt.
Proof. intros x y. unfold equal. simpl. apply Z.eqb_eq. lia. Qed.

Lemma MaxInt_associative : associative MaxInt.
Proof. intros x y z. unfold equal. simpl. apply Z.eqb_eq. lia. Qed.

Lemma MaxInt_join_respects_equal : join_respects_equal MaxInt.
Proof.
  intros x a b. unfold equal. simpl. rewrite !Z.eqb_eq. lia.
Qed.

Lemma lww_join_idempotent x : lww_join x x = x.
Proof.
  destruct x as [t v]. unfold lww_join. simpl.
  rewrite Z.ltb_irrefl. f_equal. lia.
Qed.

Lemma lww_join_commutative x y : lww_join x y = lww_join y x.
Proof.
  destruct x as [t v], y as [t' v']. unfold lww_join. simpl.
  destruct (Z.ltb_spec t t'), (Z.ltb_spec t' t); try lia; try done.
  f_equal; lia.
Qed.

Lemma lww_join_associative x y z :
  lww_join x (lww_join y z) = lww_join (lww_join x y) z.
Proof.
  destruct x as [t v], y as [t' v'], z as [t'' v'']. unfold lww_join. simpl.
  repeat (match goal with
          | |- context [(?a <? ?b)%Z] =>
              is_var a; is_var b; destruct (Z.ltb_spec a b)
          end; simpl); try lia; try done; f_equal; lia.
Qed.

Lemma Cycle_idempotent : idempotent Cycle.
Proof. by intros []. Qed.

Lemma Cycle_commutative : commutative Cycle.
Proof. by intros [] []. Qed.

Lemma Cycle_associative : associative Cycle.
Proof. by intros [] [] []. Qed.

Lemma LwwRegister_idempotent : idempotent LwwRegister.
Proof.
  intros x. unfold equal. simpl. rewrite lww_join_idempotent. apply Z.eqb_refl.
Qed.

Lemma LwwRegister_commutative : commutative LwwRegister.
Proof.
  intros x y. unfold equal. simpl.
  rewrite (lww_join_commutative x y). apply Z.eqb_refl.
Qed.

Lemma LwwRegister_associative : associative LwwRegister.
Proof.
  intros x y z. unfold equal. simpl.
  rewrite lww_join_associative. apply Z.eqb_refl.
Qed.

(** ** The methods [get] and [join] *)
Section Methods.
Context {L T : Type} {CmpT : Comparable T} {LatL : Lattice L T}.
Implicit Types (h : gmap positive L) (p q this other : positive) (x y : L).


(** When an object is joined into itself, [this] and [other] are one
    object: it is written, and idempotence is what keeps its observable
    value. *)
Lemma call_join_self h p x :
  idempotent L → h !! p = Some x →
  ∃ h', call_join p p h = Some (tt, h') ∧
        call_get p h' = Some (get (join x x), h') ∧
        t_eq (get (join x x)) (get x) = true.
Proof.
  intros Hidem Hp. exists (<[p := join x x]> h).
  split; [by apply call_join_run|].
  split; [apply call_get_run, lookup_insert_eq | apply Hidem].
Qed.
End Methods.

(** ** The derived operators *)
Section Comparisons.
Context {L T : Type} {CmpT : Comparable T} {LatL : Lattice L T}.
Implicit Types (h : gmap positive L) (p q l r j : positive) (x y z : L).

(** C1: [l <= r] returns true exactly when joining [r] into a copy of [l]
    gives an object whose [get] value is [==] to the [get] value of [r]:
    the operator computes the order induced by [join]. *)
Theorem operator_le_induced_order h l r x y :
  h !! l = Some x → h !! r = Some y →
  ∃ b, operator_le l r h = Some (b, h) ∧
       (b = true ↔ t_eq (get (join x y)) (get y) = true) ∧
       ∀ (hc : gmap positive L) (c : positive),
         hc !! c = Some x → hc !! r = Some y → c ≠ r →
         ∃ hc', call_join c r hc = Some (tt, hc') ∧
                call_get c hc' = Some (get (join x y), hc') ∧
                call_get r hc' = Some (get y, hc').
Proof.
  intros Hl Hr. exists (less_or_equal x y).
  split; [by apply operator_le_run|].
  split; [done|].
  intros hc c Hc Hcr Hne. exists (<[c := join x y]> hc).
  split; [by apply call_join_run|].
  split; apply call_get_run; [apply lookup_insert_eq|].
  by rewrite lookup_insert_ne.
Qed.

(** C2: [l == r] returns true exactly when the [get] values of the two
    objects are [==] in the domain type; the answer depends on the objects
    only through their [get] values, not on which objects they are nor on
    the rest of their states. *)
Theorem operator_eq_compares_get h l r x y :
  h !! l = Some x → h !! r = Some y →
  operator_eq l r h = Some (t_eq (get x) (get y), h) ∧
  ∀ (h' : gmap positive L) (l' r' : positive) (x' y' : L),
    h' !! l' = Some x' → h' !! r' = Some y' →
    get x' = get x → get y' = get y →
    fst <$> operator_eq l' r' h' = fst <$> operator_eq l r h.
Proof.
  intros Hl Hr. split; [by apply operator_eq_run|].
  intros h' l' r' x' y' Hl' Hr' Hx Hy.
  rewrite (operator_eq_run h' l' r' x' y' Hl' Hr').
  rewrite (operator_eq_run h l r x y Hl Hr).
  unfold equal. by rewrite Hx, Hy.
Qed.

(** C3: [l != r] returns what [!=] of the domain type says of the
    two [get] values; for a domain type whose [!=] is the negation of its
    [==] this is the negation of what [l == r] returns. *)
Theorem operator_ne_negates_operator_eq h l r x y :
  h !! l = Some x → h !! r = Some y →
  operator_ne l r h = Some (t_ne (get x) (get y), h) ∧
  (ne_complements_eq T →
   ∃ b, operator_eq l r h = Some (b, h) ∧
        operator_ne l r h = Some (negb b, h)).
Proof.
  intros Hl Hr. split; [by apply operator_ne_run|].
  intros Hneg. exists (equal x y).
  split; [by apply operator_eq_run|].
  rewrite (operator_ne_run h l r x y Hl Hr).
  unfold not_equal, equal. by rewrite Hneg.
Qed.

(** C4: [l <= r] leaves both operands as they were: the call returns, and
    in the store it returns the caller's [l] and [r] hold the states they
    held before (the store is the one the call started from). *)
Theorem operator_le_preserves_operands h l r x y :
  h !! l = Some x → h !! r = Some y →
  ∃ b h', operator_le l r h = Some (b, h') ∧
          h' !! l = Some x ∧ h' !! r = Some y ∧
          call_get l h' = Some (get x, h') ∧
          call_get r h' = Some (get y, h') ∧
          h' = h.
Proof.
  intros Hl Hr. exists (less_or_equal x y), h.
  split; [by apply operator_le_run|].
  repeat split; auto using call_get_run.
Qed.

(** C6: reflexivity.  With an idempotent [join], [l <= r] returns true
    whenever the two operands hold the same state, in particular when they
    are the same object. *)
Theorem operator_le_reflexive h l r x :
  idempotent L →
  h !! l = Some x → h !! r = Some x →
  operator_le l r h = Some (true, h).
Proof.
  intros Hidem Hl Hr. rewrite (operator_le_run h l r x x Hl Hr).
  do 2 f_equal. apply Hidem.
Qed.

(** C7: antisymmetry.  With a commutative [join] and a domain type whose
    [==] is an equivalence relation, if [l <= r] and [r <= l] both return
    true then [l == r] returns true. *)
Theorem operator_le_antisymmetric h l r x y :
  EqualityComparable T → commutative L →
  h !! l = Some x → h !! r = Some y →
  fst <$> operator_le l r h = Some true →
  fst <$> operator_le r l h = Some true →
  operator_eq l r h = Some (true, h).
Proof.
  intros HT Hcomm Hl Hr.
  rewrite (operator_le_run h l r x y Hl Hr).
  rewrite (operator_le_run h r l y x Hr Hl).
  rewrite (operator_eq_run h l r x y Hl Hr). simpl.
  intros [= Hxy] [= Hyx]. do 2 f_equal.
  by apply less_or_equal_antisym.
Qed.

(** C8: monotonicity.  With a domain type whose [==] is an equivalence
    relation and a [join] that is associative, commutative and idempotent
    and that respects observational equality, after [j.join(r)] on a copy
    [j] of [l], both [l <= j] and [r <= j] return true. *)
Theorem operator_le_join_upper_bound h l r j x y :
  EqualityComparable T →
  associative L → commutative L → idempotent L → join_respects_equal L →
  h !! l = Some x → h !! r = Some y → h !! j = Some x →
  j ≠ l → j ≠ r →
  ∃ h', call_join j r h = Some (tt, h') ∧
        h' !! j = Some (join x y) ∧
        operator_le l j h' = Some (true, h') ∧
        operator_le r j h' = Some (true, h').
Proof.
  intros HT Hassoc Hcomm Hidem Hcong Hl Hr Hj Hjl Hjr.
  exists (<[j := join x y]> h).
  assert (Hj' : <[j := join x y]> h !! j = Some (join x y))
    by apply lookup_insert_eq.
  assert (Hl' : <[j := join x y]> h !! l = Some x)
    by (by rewrite lookup_insert_ne).
  assert (Hr' : <[j := join x y]> h !! r = Some y)
    by (by rewrite lookup_insert_ne).
  split; [by apply call_join_run|].
  split; [done|].
  rewrite (operator_le_run _ l j x (join x y) Hl' Hj').
  rewrite (operator_le_run _ r j y (join x y) Hr' Hj').
  split; do 2 f_equal.
  - by apply less_or_equal_join_l.
  - by apply less_or_equal_join_r.
Qed.

(** C10: transitivity.  With a domain type whose [==] is an equivalence
    relation and a [join] that is associative, commutative and idempotent
    and that respects observational equality, if [p <= q] and [q <= r] both
    return true then [p <= r] returns true. *)
Theorem operator_le_transitive h p q r x y z :
  EqualityComparable T →
  associative L → commutative L → idempotent L → join_respects_equal L →
  h !! p = Some x → h !! q = Some y → h !! r = Some z →
  fst <$> operator_le p q h = Some true →
  fst <$> operator_le q r h = Some true →
  operator_le p r h = Some (true, h).
Proof.
  intros HT Hassoc Hcomm _ Hcong Hp Hq Hr.
  rewrite (operator_le_run h p q x y Hp Hq).
  rewrite (operator_le_run h q r y z Hq Hr).
  rewrite (operator_le_run h p r x z Hp Hr). simpl.
  intros [= Hxy] [= Hyz]. do 2 f_equal.
  by apply less_or_equal_trans with y.
Qed.
End Comparisons.

(** ** The operators on the integer-max and boolean-or lattices *)

Example max_join_3_7 :
  get (join {| max_value := 3 |} {| max_value := 7 |}) = 7%Z.
Proof. reflexivity. Qed.

Example max_le_3_7 : operator_le 1 2 ints_3_7 = Some (true, ints_3_7).
Proof. exact (operator_le_run (T := Z) ints_3_7 1 2 _ _ eq_refl eq_refl). Qed.

Example max_le_7_3 : operator_le 2 1 ints_3_7 = Some (false, ints_3_7).
Proof. exact (operator_le_run (T := Z) ints_3_7 2 1 _ _ eq_refl eq_refl). Qed.

Example max_join_assoc_2_9_4 :
  get (join {| max_value := 2 |} (join {| max_value := 9 |} {| max_value := 4 |}))
    = 9%Z ∧
  get (join (join {| max_value := 2 |} {| max_value := 9 |}) {| max_value := 4 |})
    = 9%Z.
Proof. split; reflexivity. Qed.

Example max_eq_5_5 :
  operator_eq 1 2 ints_5_5 = Some (true, ints_5_5) ∧
  operator_ne 1 2 ints_5_5 = Some (false, ints_5_5).
Proof. split; reflexivity. Qed.

Example or_join_false_true :
  get (join {| or_value := false |} {| or_value := true |}) = true ∧
  get (join {| or_value := false |} {| or_value := false |}) = false ∧
  less_or_equal {| or_value := false |} {| or_value := true |} = true ∧
  less_or_equal {| or_value := true |} {| or_value := false |} = false.
Proof. repeat split; reflexivity. Qed.

(** ** The theorems at work on the sample types *)


Lemma operator_le_induced_order_witness :
  ∃ b, operator_le 1 2 ints_3_7 = Some (b, ints_3_7) ∧ b = true.
Proof.
  destruct (operator_le_induced_order (T := Z) ints_3_7 1 2
              {| max_value := 3 |} {| max_value := 7 |} eq_refl eq_refl)
    as (b & Hrun & Hiff & _).
  exists b. split; [assumption|]. apply Hiff. reflexivity.
Defined.

Lemma operator_eq_compares_get_witness :
  operator_eq 1 2 ints_5_5 = Some (true, ints_5_5).
Proof.
  exact (proj1 (operator_eq_compares_get (T := Z) ints_5_5 1 2
                  {| max_value := 5 |} {| max_value := 5 |} eq_refl eq_refl)).
Defined.

Lemma operator_ne_negates_operator_eq_witness :
  operator_ne 1 2 ints_3_7 = Some (true, ints_3_7) ∧
  ∃ b, operator_eq 1 2 ints_3_7 = Some (b, ints_3_7) ∧
       operator_ne 1 2 ints_3_7 = Some (negb b, ints_3_7).
Proof.
  destruct (operator_ne_negates_operator_eq (T := Z) ints_3_7 1 2
              {| max_value := 3 |} {| max_value := 7 |} eq_refl eq_refl)
    as [Hne Hneg].
  split; [exact Hne | exact (Hneg Z_ne_complements_eq)].
Defined.

Lemma operator_le_preserves_operands_witness :
  ∃ b h', operator_le 1 2 ints_3_7 = Some (b, h') ∧
          h' !! 1%positive = Some {| max_value := 3 |} ∧
          h' !! 2%positive = Some {| max_value := 7 |}.
Proof.
  destruct (operator_le_preserves_operands (T := Z) ints_3_7 1 2
              {| max_value := 3 |} {| max_value := 7 |} eq_refl eq_refl)
    as (b & h' & Hrun & Hl & Hr & _).
  exists b, h'. repeat split; assumption.
Defined.

Lemma operator_le_reflexive_witness :
  operator_le 1 1 ints_3_7 = Some (true, ints_3_7).
Proof.
  exact (operator_le_reflexive (T := Z) ints_3_7 1 1 {| max_value := 3 |}
           MaxInt_idempotent eq_refl eq_refl).
Defined.

Lemma operator_le_antisymmetric_witness :
  operator_eq 1 2 ints_5_5 = Some (true, ints_5_5).
Proof.
  refine (operator_le_antisymmetric (T := Z) ints_5_5 1 2
            {| max_value := 5 |} {| max_value := 5 |}
            Z_equality_comparable MaxInt_commutative eq_refl eq_refl _ _);
    vm_compute; reflexivity.
Defined.

Lemma operator_le_join_upper_bound_witness :
  ∃ h', call_join 3 2 ints_3_7_3 = Some (tt, h') ∧
        h' !! 3%positive = Some {| max_value := 7 |} ∧
        operator_le 1 3 h' = Some (true, h') ∧
        operator_le 2 3 h' = Some (true, h').
Proof.
  exact (operator_le_join_upper_bound (T := Z) ints_3_7_3 1 2 3
           {| max_value := 3 |} {| max_value := 7 |}
           Z_equality_comparable MaxInt_associative MaxInt_commutative
           MaxInt_idempotent MaxInt_join_respects_equal
           eq_refl eq_refl eq_refl ltac:(lia) ltac:(lia)).
Defined.

Lemma operator_le_transitive_witness :
  operator_le 1 3 ints_3_5_7 = Some (true, ints_3_5_7).
Proof.
  refine (operator_le_transitive (T := Z) ints_3_5_7 1 2 3
            {| max_value := 3 |} {| max_value := 5 |} {| max_value := 7 |}
            Z_equality_comparable MaxInt_associative MaxInt_commutative
            MaxInt_idempotent MaxInt_join_respects_equal
            eq_refl eq_refl eq_refl _ _);
    vm_compute; reflexivity.
Defined.

(** ** Implementing types on which the comparisons misbehave *)

(** C3 needs the condition on [!=]: on two [Versioned] objects with the same
    payload and different versions both [==] and [!=] return true, so [!=] is
    not the negation of [==] there. *)
Lemma operator_ne_and_operator_eq_both_true :
  operator_eq 1 2 versions = Some (true, versions) ∧
  operator_ne 1 2 versions = Some (true, versions) ∧
  fst <$> operator_ne 1 2 versions ≠ negb <$> (fst <$> operator_eq 1 2 versions).
Proof.
  pose proof (operator_eq_run (T := Versioned) versions 1 2 _ _ eq_refl eq_refl)
    as Heq.
  pose proof (operator_ne_run (T := Versioned) versions 1 2 _ _ eq_refl eq_refl)
    as Hne.
  split; [exact Heq|]. split; [exact Hne|].
  rewrite Heq, Hne. discriminate.
Qed.

(** C8 needs a [join] that respects observational equality: [Cycle]
    satisfies idempotence, commutativity and associativity as the
    header states them, yet with [x] and [y] in the state [C0] and [j] a copy
    of [x], after [j.join(y)] the comparison [x <= j] returns false. *)
Lemma cycle_join_not_above_operand :
  idempotent Cycle ∧ commutative Cycle ∧ associative Cycle ∧
  call_join 3 2 cycles = Some (tt, store3 C0 C0 C1) ∧
  operator_le 1 3 (store3 C0 C0 C1) = Some (false, store3 C0 C0 C1).
Proof.
  split; [exact Cycle_idempotent|].
  split; [exact Cycle_commutative|].
  split; [exact Cycle_associative|].
  split.
  - vm_compute. reflexivity.
  - exact (operator_le_run (T := bool) (store3 C0 C0 C1) 1 3 C0 C1
             eq_refl eq_refl).
Qed.

(** C10 needs a [join] that respects observational equality: the
    last-writer-wins register satisfies idempotence, commutativity
    and associativity (on the states, hence observationally), and for
    [x = (time 2, value 0)], [y = (time 1, value 0)], [z = (time 1, value 1)]
    both [x <= y] and [y <= z] return true while [x <= z] returns false. *)
Lemma lww_order_not_transitive :
  idempotent LwwRegister ∧ commutative LwwRegister ∧
  associative LwwRegister ∧
  operator_le 1 2 registers = Some (true, registers) ∧
  operator_le 2 3 registers = Some (true, registers) ∧
  operator_le 1 3 registers = Some (false, registers).
Proof.
  split; [exact LwwRegister_idempotent|].
  split; [exact LwwRegister_commutative|].
  split; [exact LwwRegister_associative|].
  split; [|split].
  - exact (operator_le_run (T := Z) registers 1 2 _ _ eq_refl eq_refl).
  - exact (operator_le_run (T := Z) registers 2 3 _ _ eq_refl eq_refl).
  - exact (operator_le_run (T := Z) registers 1 3 _ _ eq_refl eq_refl).
Qed.


(** The laws on the classes over [Approx]. *)
Lemma Band_idempotent : idempotent Band.
Proof. by intros []. Qed.

Lemma Band_commutative : commutative Band.
Proof. by intros [] []. Qed.

Lemma Band_associative : associative Band.
Proof. by intros [] [] []. Qed.

Lemma Band_join_respects_equal : join_respects_equal Band.
Proof. by intros [] [] []. Qed.

Lemma ApproxMax_idempotent : idempotent ApproxMax.
Proof. intros x. unfold equal. simpl. apply Z.leb_le. lia. Qed.

Lemma ApproxMax_commutative : commutative ApproxMax.
Proof. intros x y. unfold equal. simpl. apply Z.leb_le. lia. Qed.

Lemma ApproxMax_associative : associative ApproxMax.
Proof. intros x y z. unfold equal. simpl. apply Z.leb_le. lia. Qed.

Lemma ApproxMax_join_respects_equal : join_respects_equal ApproxMax.
Proof. intros x a b. unfold equal. simpl. rewrite !Z.leb_le. lia. Qed.

Lemma Quad_idempotent : idempotent Quad.
Proof. by intros []. Qed.

Lemma Quad_commutative : commutative Quad.
Proof. by intros [] []. Qed.

Lemma Quad_associative : associative Quad.
Proof. by intros [] [] []. Qed.

Lemma Quad_join_respects_equal : join_respects_equal Quad.
Proof. by intros [] [] []. Qed.


(** C7 needs [==] of the domain type to be an equivalence: [Band] satisfies
    idempotence, commutativity and associativity for the tolerant [==] of
    [Approx], and [join] respects that [==]; on a [Low] and a [High] object
    [l <= r] and [r <= l] return true and [l == r] returns false. *)
Lemma band_order_not_antisymmetric :
  idempotent Band ∧ commutative Band ∧ associative Band ∧
  join_respects_equal Band ∧
  operator_le 1 2 bands = Some (true, bands) ∧
  operator_le 2 1 bands = Some (true, bands) ∧
  operator_eq 1 2 bands = Some (false, bands).
Proof.
  split; [exact Band_idempotent|].
  split; [exact Band_commutative|].
  split; [exact Band_associative|].
  split; [exact Band_join_respects_equal|].
  split; [|split].
  - exact (operator_le_run (T := Approx) bands 1 2 _ _ eq_refl eq_refl).
  - exact (operator_le_run (T := Approx) bands 2 1 _ _ eq_refl eq_refl).
  - exact (operator_eq_run (T := Approx) bands 1 2 _ _ eq_refl eq_refl).
Qed.

(** Monotonicity needs [==] of the domain type to be an equivalence as well
    as a [join] that respects it: [Quad] satisfies the three laws for the
    tolerant [==] of [Approx] and its [join] respects that [==], yet with
    [x] in the state [Q2], [y] in the state [Q3] and [j] a copy of [x],
    after [j.join(y)] the comparison [x <= j] returns false. *)
Lemma quad_join_not_above_operand :
  idempotent Quad ∧ commutative Quad ∧ associative Quad ∧
  join_respects_equal Quad ∧
  call_join 3 2 quads = Some (tt, store3 Q2 Q3 Q0) ∧
  operator_le 1 3 (store3 Q2 Q3 Q0) = Some (false, store3 Q2 Q3 Q0).
Proof.
  split; [exact Quad_idempotent|].
  split; [exact Quad_commutative|].
  split; [exact Quad_associative|].
  split; [exact Quad_join_respects_equal|].
  split.
  - vm_compute. reflexivity.
  - exact (operator_le_run (T := Approx) (store3 Q2 Q3 Q0) 1 3 Q2 Q0
             eq_refl eq_refl).
Qed.

(** Transitivity needs [==] of the domain type to be an equivalence as well
    as a [join] that respects it: the integer-max lattice satisfies the three
    laws for the tolerant [==] of [Approx] and its [join] respects that
    [==], yet on objects holding 2, 1 and 0 both [x <= y] and [y <= z]
    return true while [x <= z] returns false. *)
Lemma approx_max_order_not_transitive :
  idempotent ApproxMax ∧ commutative ApproxMax ∧ associative ApproxMax ∧
  join_respects_equal ApproxMax ∧
  operator_le 1 2 approx_ints = Some (true, approx_ints) ∧
  operator_le 2 3 approx_ints = Some (true, approx_ints) ∧
  operator_le 1 3 approx_ints = Some (false, approx_ints).
Proof.
  split; [exact ApproxMax_idempotent|].
  split; [exact ApproxMax_commutative|].
  split; [exact ApproxMax_associative|].
  split; [exact ApproxMax_join_respects_equal|].
  split; [|split].
  - exact (operator_le_run (T := Approx) approx_ints 1 2 _ _ eq_refl eq_refl).
  - exact (operator_le_run (T := Approx) approx_ints 2 3 _ _ eq_refl eq_refl).
  - exact (operator_le_run (T := Approx) approx_ints 1 3 _ _ eq_refl eq_refl).
Qed.

(** * The semilattice the operators describe

    The header comment presents [join] as a least upper bound for the order
    [<=] and [==] as the equality of that order.  The lemmas below say when
    the operators of the header behave so: [==] of the domain type is an
    equivalence, and the laws hold for the [get] values. *)

(** ** On the states *)
Section Semilattice.
Context {L T : Type} `{EqualityComparable T} `{Lattice L T}.
Implicit Types x y z a b c : L.

Lemma equal_refl a : equal a a = true.
Proof. apply t_eq_refl. Qed.

Lemma equal_less_or_equal x y :
  idempotent L → join_respects_equal L →
  equal x y = true → less_or_equal x y = true.
Proof.
  intros Hidem Hcong Hxy. unfold less_or_equal. cbn zeta.
  fold (equal (join x y) y).
  apply equal_trans with (join x x).
  { apply Hcong. by apply equal_sym. }
  apply equal_trans with x; [apply Hidem | done].
Qed.

Lemma less_or_equal_join_least x y z :
  associative L → join_respects_equal L →
  less_or_equal x z = true → less_or_equal y z = true →
  less_or_equal (join x y) z = true.
Proof.
  intros Hassoc Hcong Hxz Hyz. unfold less_or_equal in *. cbn zeta in *.
  fold (equal (join x z) z) in Hxz. fold (equal (join y z) z) in Hyz.
  fold (equal (join (join x y) z) z).
  apply equal_trans with (join x (join y z)); [apply equal_sym, Hassoc|].
  apply equal_trans with (join x z); [by apply Hcong | done].
Qed.


Lemma join_swap a b c :
  associative L → commutative L → join_respects_equal L →
  equal (join (join a b) c) (join (join a c) b) = true.
Proof.
  intros Hassoc Hcomm Hcong.
  apply equal_trans with (join a (join b c)); [apply equal_sym, Hassoc|].
  apply equal_trans with (join a (join c b)); [apply Hcong, Hcomm|].
  apply Hassoc.
Qed.

Lemma join_twice a b :
  associative L → idempotent L → join_respects_equal L →
  equal (join (join a b) b) (join a b) = true.
Proof.
  intros Hassoc Hidem Hcong.
  apply equal_trans with (join a (join b b)); [apply equal_sym, Hassoc|].
  apply Hcong, Hidem.
Qed.

Lemma less_or_equal_respects_equal_1 x x' y y' :
  commutative L → join_respects_equal L →
  equal x x' = true → equal y y' = true →
  less_or_equal x y = true → less_or_equal x' y' = true.
Proof.
  intros Hcomm Hcong Hx Hy Hxy. unfold less_or_equal in *. cbn zeta in *.
  fold (equal (join x y) y) in Hxy. fold (equal (join x' y') y').
  apply equal_trans with (join x y').
  { apply join_respects_equal_self; auto. by apply equal_sym. }
  apply equal_trans with (join x y).
  { apply Hcong. by apply equal_sym. }
  by apply equal_trans with y.
Qed.

Lemma less_or_equal_respects_equal x x' y y' :
  commutative L → join_respects_equal L →
  equal x x' = true → equal y y' = true →
  less_or_equal x y = less_or_equal x' y'.
Proof.
  intros Hcomm Hcong Hx Hy. apply eq_true_iff_eq. split.
  - by apply less_or_equal_respects_equal_1.
  - apply less_or_equal_respects_equal_1; auto using equal_sym.
Qed.

Lemma join_monotone x x' y :
  associative L → commutative L → idempotent L → join_respects_equal L →
  less_or_equal x x' = true →
  less_or_equal (join x y) (join x' y) = true.
Proof.
  intros Hassoc Hcomm Hidem Hcong Hxx'.
  pose proof (less_or_equal_join_r x' y Hassoc Hcomm Hidem Hcong) as Hy.
  unfold less_or_equal in *. cbn zeta in *.
  fold (equal (join x x') x') in Hxx'.
  fold (equal (join y (join x' y)) (join x' y)) in Hy.
  fold (equal (join (join x y) (join x' y)) (join x' y)).
  apply equal_trans with (join x (join y (join x' y)));
    [apply equal_sym, Hassoc|].
  apply equal_trans with (join x (join x' y)); [by apply Hcong|].
  apply equal_trans with (join (join x x') y); [apply Hassoc|].
  by apply join_respects_equal_self.
Qed.
End Semilattice.

(** ** On the objects *)
Section Objects.
Context {L T : Type} {CmpT : Comparable T} {LatL : Lattice L T}.
Implicit Types (h : gmap positive L) (p q l r a b c u : positive).
Implicit Types (x y z : L).

(** X1: when [==] of the domain type is an equivalence relation, so is
    [operator==] on lattice objects: an object is [==] to itself, the answer
    does not depend on the order of the operands, and [p == q], [q == r]
    give [p == r]. *)
Theorem operator_eq_equivalence h p q r x y z :
  EqualityComparable T →
  h !! p = Some x → h !! q = Some y → h !! r = Some z →
  operator_eq p p h = Some (true, h) ∧
  operator_eq q p h = operator_eq p q h ∧
  (fst <$> operator_eq p q h = Some true →
   fst <$> operator_eq q r h = Some true →
   operator_eq p r h = Some (true, h)).
Proof.
  intros HT Hp Hq Hr.
  rewrite (operator_eq_run h p p x x Hp Hp), (operator_eq_run h q p y x Hq Hp).
  rewrite (operator_eq_run h p q x y Hp Hq), (operator_eq_run h q r y z Hq Hr).
  rewrite (operator_eq_run h p r x z Hp Hr). simpl.
  split; [by rewrite equal_refl|].
  split.
  - do 2 f_equal. apply eq_true_iff_eq. split; apply equal_sym.
  - intros [= Hxy] [= Hyz]. do 2 f_equal. by apply equal_trans with y.
Qed.

(** X2: operands that are [==] are ordered both ways: with an idempotent
    [join] that respects observational equality, if [l == r] returns true
    then [l <= r] and [r <= l] return true. *)
Theorem operator_eq_implies_operator_le h l r x y :
  EqualityComparable T → idempotent L → join_respects_equal L →
  h !! l = Some x → h !! r = Some y →
  fst <$> operator_eq l r h = Some true →
  operator_le l r h = Some (true, h) ∧ operator_le r l h = Some (true, h).
Proof.
  intros HT Hidem Hcong Hl Hr.
  rewrite (operator_eq_run h l r x y Hl Hr).
  rewrite (operator_le_run h l r x y Hl Hr).
  rewrite (operator_le_run h r l y x Hr Hl). simpl.
  intros [= Hxy]. split; do 2 f_equal.
  - by apply equal_less_or_equal.
  - apply equal_less_or_equal; auto. by apply equal_sym.
Qed.

(** X3: [join] gives the least upper bound.  With a domain type whose [==]
    is an equivalence relation and a [join] that is associative, commutative
    and idempotent and that respects observational equality: after
    [j.join(r)] on a copy [j] of [l], the object [j] holds the join of the
    two states, [l <= j] and [r <= j] return true, and [j <= u] returns
    true for every [u] such that [l <= u] and [r <= u] returned true. *)
Theorem call_join_least_upper_bound h l r u j x y z :
  EqualityComparable T →
  associative L → commutative L → idempotent L → join_respects_equal L →
  h !! l = Some x → h !! r = Some y → h !! u = Some z → h !! j = Some x →
  j ≠ l → j ≠ r → j ≠ u →
  fst <$> operator_le l u h = Some true →
  fst <$> operator_le r u h = Some true →
  ∃ h', call_join j r h = Some (tt, h') ∧
        h' !! j = Some (join x y) ∧
        operator_le l j h' = Some (true, h') ∧
        operator_le r j h' = Some (true, h') ∧
        operator_le j u h' = Some (true, h').
Proof.
  intros HT Hassoc Hcomm Hidem Hcong Hl Hr Hu Hj Hjl Hjr Hju.
  rewrite (operator_le_run h l u x z Hl Hu).
  rewrite (operator_le_run h r u y z Hr Hu). simpl.
  intros [= Hxz] [= Hyz]. exists (<[j := join x y]> h).
  assert (Hj' : <[j := join x y]> h !! j = Some (join x y))
    by apply lookup_insert_eq.
  assert (Hl' : <[j := join x y]> h !! l = Some x)
    by (by rewrite lookup_insert_ne).
  assert (Hr' : <[j := join x y]> h !! r = Some y)
    by (by rewrite lookup_insert_ne).
  assert (Hu' : <[j := join x y]> h !! u = Some z)
    by (by rewrite lookup_insert_ne).
  split; [by apply call_join_run|].
  split; [done|].
  rewrite (operator_le_run _ l j x (join x y) Hl' Hj').
  rewrite (operator_le_run _ r j y (join x y) Hr' Hj').
  rewrite (operator_le_run _ j u (join x y) z Hj' Hu').
  repeat split; do 2 f_equal.
  - by apply less_or_equal_join_l.
  - by apply less_or_equal_join_r.
  - by apply less_or_equal_join_least.
Qed.


(** X5: the order of two joins into the same object does not show.  With an
    associative and commutative [join] that respects observational equality,
    [a.join(b); a.join(c)] and [a.join(c); a.join(b)] leave [a] with [get]
    values that are [==]. *)
Theorem call_join_order_irrelevant h a b c x y z :
  EqualityComparable T →
  associative L → commutative L → join_respects_equal L →
  h !! a = Some x → h !! b = Some y → h !! c = Some z →
  a ≠ b → a ≠ c →
  ∃ v w h1 h2,
    (call_join a b ;;; call_join a c ;;; call_get a) h = Some (v, h1) ∧
    (call_join a c ;;; call_join a b ;;; call_get a) h = Some (w, h2) ∧
    t_eq v w = true.
Proof.
  intros HT Hassoc Hcomm Hcong Ha Hb Hc Hab Hac.
  exists (get (join (join x y) z)), (get (join (join x z) y)).
  exists (<[a := join (join x y) z]> (<[a := join x y]> h)).
  exists (<[a := join (join x z) y]> (<[a := join x z]> h)).
  split; [|split].
  - unfold bind. rewrite (call_join_run h a b x y Ha Hb).
    rewrite (call_join_run _ a c (join x y) z);
      [| apply lookup_insert_eq | by rewrite lookup_insert_ne].
    apply call_get_run, lookup_insert_eq.
  - unfold bind. rewrite (call_join_run h a c x z Ha Hc).
    rewrite (call_join_run _ a b (join x z) y);
      [| apply lookup_insert_eq | by rewrite lookup_insert_ne].
    apply call_get_run, lookup_insert_eq.
  - by apply join_swap.
Qed.

(** X6: joining the same object twice shows the same as joining it once.
    With an associative and idempotent [join] that respects observational
    equality, [a.join(b); a.join(b)] and [a.join(b)] leave [a] with [get]
    values that are [==]. *)
Theorem call_join_twice h a b x y :
  EqualityComparable T →
  associative L → idempotent L → join_respects_equal L →
  h !! a = Some x → h !! b = Some y → a ≠ b →
  ∃ v w h1 h2,
    (call_join a b ;;; call_join a b ;;; call_get a) h = Some (v, h2) ∧
    (call_join a b ;;; call_get a) h = Some (w, h1) ∧
    t_eq v w = true.
Proof.
  intros HT Hassoc Hidem Hcong Ha Hb Hab.
  exists (get (join (join x y) y)), (get (join x y)).
  exists (<[a := join x y]> h).
  exists (<[a := join (join x y) y]> (<[a := join x y]> h)).
  split; [|split].
  - unfold bind. rewrite (call_join_run h a b x y Ha Hb).
    rewrite (call_join_run _ a b (join x y) y);
      [| apply lookup_insert_eq | by rewrite lookup_insert_ne].
    apply call_get_run, lookup_insert_eq.
  - unfold bind. rewrite (call_join_run h a b x y Ha Hb).
    apply call_get_run, lookup_insert_eq.
  - by apply join_twice.
Qed.

(** X7: [<=] cannot tell apart operands that are [==].  With a commutative
    [join] that respects observational equality, if [l == l'] and [r == r']
    return true then [l <= r] and [l' <= r'] return the same answer. *)
Theorem operator_le_respects_operator_eq h l l' r r' x x' y y' :
  EqualityComparable T → commutative L → join_respects_equal L →
  h !! l = Some x → h !! l' = Some x' →
  h !! r = Some y → h !! r' = Some y' →
  fst <$> operator_eq l l' h = Some true →
  fst <$> operator_eq r r' h = Some true →
  ∃ res : bool,
    operator_le l r h = Some (res, h) ∧ operator_le l' r' h = Some (res, h).
Proof.
  intros HT Hcomm Hcong Hl Hl' Hr Hr'.
  rewrite (operator_eq_run h l l' x x' Hl Hl').
  rewrite (operator_eq_run h r r' y y' Hr Hr'). simpl.
  intros [= Hx] [= Hy]. exists (less_or_equal x y).
  split; [by apply operator_le_run|].
  rewrite (operator_le_run h l' r' x' y' Hl' Hr'). do 2 f_equal.
  symmetry. by apply less_or_equal_respects_equal.
Qed.

(** X8: [join] is monotone.  With an associative, commutative and idempotent
    [join] that respects observational equality, if [a <= b] returns true
    then it still does after the same object [c] has been joined into both:
    after [a.join(c); b.join(c)], [a <= b] returns true. *)
Theorem call_join_monotone h a b c x y z :
  EqualityComparable T →
  associative L → commutative L → idempotent L → join_respects_equal L →
  h !! a = Some x → h !! b = Some y → h !! c = Some z →
  a ≠ b → a ≠ c → b ≠ c →
  fst <$> operator_le a b h = Some true →
  ∃ h', (call_join a c ;;; call_join b c) h = Some (tt, h') ∧
        operator_le a b h' = Some (true, h').
Proof.
  intros HT Hassoc Hcomm Hidem Hcong Ha Hb Hc Hab Hac Hbc.
  rewrite (operator_le_run h a b x y Ha Hb). simpl. intros [= Hxy].
  exists (<[b := join y z]> (<[a := join x z]> h)).
  split.
  - unfold bind. rewrite (call_join_run h a c x z Ha Hc).
    apply call_join_run; by rewrite lookup_insert_ne.
  - rewrite (operator_le_run _ a b (join x z) (join y z)).
    + do 2 f_equal. by apply join_monotone.
    + rewrite lookup_insert_ne by done. apply lookup_insert_eq.
    + apply lookup_insert_eq.
Qed.
End Objects.

(** ** On the integer-max lattice *)

Lemma operator_eq_equivalence_witness :
  operator_eq 1 1 ints_3_7_3 = Some (true, ints_3_7_3) ∧
  operator_eq 3 1 ints_3_7_3 = operator_eq 1 3 ints_3_7_3.
Proof.
  destruct (operator_eq_equivalence (T := Z) ints_3_7_3 1 3 2
              {| max_value := 3 |} {| max_value := 3 |} {| max_value := 7 |}
              Z_equality_comparable eq_refl eq_refl eq_refl)
    as (Hrefl & Hsym & _).
  split; assumption.
Defined.

Lemma operator_eq_implies_operator_le_witness :
  operator_le 1 3 ints_3_7_3 = Some (true, ints_3_7_3) ∧
  operator_le 3 1 ints_3_7_3 = Some (true, ints_3_7_3).
Proof.
  refine (operator_eq_implies_operator_le (T := Z) ints_3_7_3 1 3
            {| max_value := 3 |} {| max_value := 3 |}
            Z_equality_comparable MaxInt_idempotent
            MaxInt_join_respects_equal eq_refl eq_refl _).
  vm_compute. reflexivity.
Defined.

Lemma call_join_least_upper_bound_witness :
  ∃ h', call_join 4 2 ints_3_5_7_3 = Some (tt, h') ∧
        h' !! 4%positive = Some {| max_value := 5 |} ∧
        operator_le 1 4 h' = Some (true, h') ∧
        operator_le 2 4 h' = Some (true, h') ∧
        operator_le 4 3 h' = Some (true, h').
Proof.
  refine (call_join_least_upper_bound (T := Z) ints_3_5_7_3 1 2 3 4
            {| max_value := 3 |} {| max_value := 5 |} {| max_value := 7 |}
            Z_equality_comparable MaxInt_associative MaxInt_commutative
            MaxInt_idempotent MaxInt_join_respects_equal
            eq_refl eq_refl eq_refl eq_refl
            ltac:(lia) ltac:(lia) ltac:(lia) _ _);
    vm_compute; reflexivity.
Defined.


Lemma call_join_order_irrelevant_witness :
  ∃ v w h1 h2,
    (call_join 1 2 ;;; call_join 1 3 ;;; call_get 1) ints_3_5_7
      = Some (v, h1) ∧
    (call_join 1 3 ;;; call_join 1 2 ;;; call_get 1) ints_3_5_7
      = Some (w, h2) ∧
    (v =? w)%Z = true.
Proof.
  exact (call_join_order_irrelevant (T := Z) ints_3_5_7 1 2 3
           {| max_value := 3 |} {| max_value := 5 |} {| max_value := 7 |}
           Z_equality_comparable MaxInt_associative MaxInt_commutative
           MaxInt_join_respects_equal
           eq_refl eq_refl eq_refl ltac:(lia) ltac:(lia)).
Defined.

Lemma call_join_twice_witness :
  ∃ v w h1 h2,
    (call_join 1 2 ;;; call_join 1 2 ;;; call_get 1) ints_3_7 = Some (v, h2) ∧
    (call_join 1 2 ;;; call_get 1) ints_3_7 = Some (w, h1) ∧
    (v =? w)%Z = true.
Proof.
  exact (call_join_twice (T := Z) ints_3_7 1 2
           {| max_value := 3 |} {| max_value := 7 |}
           Z_equality_comparable MaxInt_associative MaxInt_idempotent
           MaxInt_join_respects_equal eq_refl eq_refl ltac:(lia)).
Defined.

Lemma operator_le_respects_operator_eq_witness :
  ∃ res : bool,
    operator_le 1 2 ints_3_7_3 = Some (res, ints_3_7_3) ∧
    operator_le 3 2 ints_3_7_3 = Some (res, ints_3_7_3).
Proof.
  refine (operator_le_respects_operator_eq (T := Z) ints_3_7_3 1 3 2 2
            {| max_value := 3 |} {| max_value := 3 |}
            {| max_value := 7 |} {| max_value := 7 |}
            Z_equality_comparable MaxInt_commutative
            MaxInt_join_respects_equal
            eq_refl eq_refl eq_refl eq_refl _ _);
    vm_compute; reflexivity.
Defined.

Lemma call_join_monotone_witness :
  ∃ h', (call_join 1 3 ;;; call_join 2 3) ints_3_5_7 = Some (tt, h') ∧
        operator_le 1 2 h' = Some (true, h').
Proof.
  refine (call_join_monotone (T := Z) ints_3_5_7 1 2 3
            {| max_value := 3 |} {| max_value := 5 |} {| max_value := 7 |}
            Z_equality_comparable MaxInt_associative MaxInt_commutative
            MaxInt_idempotent MaxInt_join_respects_equal
            eq_refl eq_refl eq_refl
            ltac:(lia) ltac:(lia) ltac:(lia) _).
  vm_compute. reflexivity.
Defined.
